(** * Analyzer: a shallow embedding of [analyzer.cpp]

    The class [Analyzer] stores a name and a vector of [int] samples, computes
    their mean in [double] arithmetic and prints a two-line report on
    [std::cout].

    - [int] is modelled as [Z] restricted to the 32-bit range [int_range];
    - [double] is IEEE-754 binary64, modelled by the Standard Library's
      [spec_float] with [prec = 53] and [emax = 1024] (round to nearest, ties
      to even), the specification the primitive floats are axiomatised
      against;
    - [std::vector<int>] is a [list Z], [push_back] appends at the end;
    - [std::cout] is the text written so far. *)

From Stdlib Require Import ZArith List String Ascii Bool Lia Permutation.
From Stdlib Require Import Floats.
Import ListNotations.

Local Open Scope Z_scope.

(** ** The [int] and [double] types *)

Module Int.

Definition INT_MIN : Z := - 2 ^ 31.
Definition INT_MAX : Z := 2 ^ 31 - 1.

(** The values an [int] parameter can hold. *)
Definition int_range (v : Z) : Prop := INT_MIN <= v <= INT_MAX.

End Int.

Module Double.

Definition double : Type := spec_float.

(** The literal [0.0]. *)
Definition zero : double := S754_zero false.

(** [x + y] on doubles. *)
Definition add (x y : double) : double := SF64add x y.

(** Conversion of an integer value to [double] (exact below [2^53],
    rounded to nearest above); used for [int] and for [size_t]. *)
Definition of_Z (z : Z) : double := binary_normalize prec emax z 0 false.

Definition is_zero (x : double) : bool :=
  match x with
  | S754_zero _ => true
  | _ => false
  end.

(** [x / y] on doubles.  A zero divisor is undefined behaviour in C++
    ([expr.mul]); it is the one step of the program that could go wrong,
    and is reported as [None]. *)
Definition div (x y : double) : option double :=
  if is_zero y then None else Some (SF64div x y).

(** A floating literal of the source, read as a binary64 value. *)
Definition lit (f : float) : double := Prim2SF f.

(** *** Vocabulary for the rounding lemmas *)

(** [shl k p] is [p * 2^k]: [k] zero bits appended to a mantissa. *)
Definition shl (k : nat) (p : positive) : positive := Nat.iter k xO p.

(** A mantissa with no bit shifted out yet. *)
Definition exact (m : positive) : shr_record :=
  {| shr_m := Zpos m; shr_r := false; shr_s := false |}.

(** The number of zero bits that bring [p] to 53 bits. *)
Definition lead (p : positive) : nat := Z.to_nat (prec - Zpos (digits2_pos p)).

End Double.

Export Double(double).

(** ** The output stream

    [std::cout] is modelled by the text written to it so far.  The stream is
    in its initial format state: [operator<<(double)] behaves as [printf]
    with [%g] and precision 6 ([num_put], floatfield unset). *)

Module Ostream.

Local Open Scope string_scope.
Local Open Scope Z_scope.

Definition ostream : Type := string.

Definition newline : string := String (ascii_of_nat 10) EmptyString.

Definition digit_char (d : Z) : ascii := ascii_of_nat (48 + Z.to_nat d).

Fixpoint digits_acc (fuel : nat) (n : Z) (acc : string) : string :=
  match fuel with
  | O => acc
  | S fuel' =>
      let acc' := String (digit_char (n mod 10)) acc in
      if n <? 10 then acc' else digits_acc fuel' (n / 10) acc'
  end.

(** Decimal digits of a natural number. *)
Definition decimal (n : Z) : string :=
  digits_acc (S (Z.to_nat (Z.log2 n))) n "".

Fixpoint zeros (n : nat) : string :=
  match n with
  | O => ""
  | S n' => String "0" (zeros n')
  end.

(** Removes the trailing zeros of a fractional part. *)
Fixpoint strip_zeros (s : string) : string :=
  match s with
  | EmptyString => EmptyString
  | String c r =>
      match strip_zeros r with
      | EmptyString => if Ascii.eqb c "0" then EmptyString else String c EmptyString
      | r' => String c r'
      end
  end.

Definition with_point (int_part frac : string) : string :=
  match strip_zeros frac with
  | EmptyString => int_part
  | f => int_part ++ "." ++ f
  end.

(** [pow10_le x num den]: [10^x <= num / den]. *)
Definition pow10_le (x num den : Z) : bool :=
  if 0 <=? x then 10 ^ x * den <=? num else den <=? num * 10 ^ (- x).

(** The largest [x], from [x0] upwards, with [10^x <= num / den]. *)
Fixpoint exponent10_from (fuel : nat) (x0 num den : Z) : Z :=
  match fuel with
  | O => x0
  | S fuel' =>
      if pow10_le (x0 + 1) num den then exponent10_from fuel' (x0 + 1) num den
      else x0
  end.

(** [num / (den * 10^(x-5))] rounded to the nearest integer, ties to even:
    the six significant digits. *)
Definition six_digits (x num den : Z) : Z :=
  let n := if x <=? 5 then num * 10 ^ (5 - x) else num in
  let d := if x <=? 5 then den else den * 10 ^ (x - 5) in
  let q := n / d in
  let r := n mod d in
  match 2 * r ?= d with
  | Lt => q
  | Eq => if Z.even q then q else q + 1
  | Gt => q + 1
  end.

Definition exponent_text (x : Z) : string :=
  let a := Z.abs x in
  (if x <? 0 then "-" else "+") ++ (if a <? 10 then "0" else "") ++ decimal a.

(** [%g] with precision 6 of the positive rational [num / den]. *)
Definition general6 (num den : Z) : string :=
  let x0 := exponent10_from 700 (-324) num den in
  let n0 := six_digits x0 num den in
  let x := if n0 =? 1000000 then x0 + 1 else x0 in
  let n := if n0 =? 1000000 then 100000 else n0 in
  let ds := decimal n in
  if (-4 <=? x) && (x <? 6) then
    if 0 <=? x then
      with_point (substring 0 (Z.to_nat (x + 1)) ds)
                 (substring (Z.to_nat (x + 1)) (Z.to_nat (5 - x)) ds)
    else
      with_point "0" (zeros (Z.to_nat (- x - 1)) ++ ds)
  else
    with_point (substring 0 1 ds) (substring 1 5 ds) ++ "e" ++ exponent_text x.

Definition sign_text (s : bool) : string := if s then "-" else "".

(** Text of a [double] under the default format. *)
Definition format_double (d : double) : string :=
  match d with
  | S754_zero s => sign_text s ++ "0"
  | S754_infinity s => sign_text s ++ "inf"
  | S754_nan => "nan"
  | S754_finite s m e =>
      sign_text s ++
      (if 0 <=? e then general6 (Zpos m * 2 ^ e) 1
       else general6 (Zpos m) (2 ^ (- e)))
  end.

(** [os << s] for a string, [os << d] for a double, [os << std::endl]. *)
Definition put_string (os : ostream) (s : string) : ostream := os ++ s.
Definition put_double (os : ostream) (d : double) : ostream := os ++ format_double d.
Definition endl (os : ostream) : ostream := os ++ newline.

End Ostream.

Export Ostream(ostream).

(** ** The class [Analyzer] *)

(** The private fields [name] and [data]. *)
Record Analyzer : Type := mkAnalyzer {
  name : string;
  data : list Z
}.

(** [Analyzer(const std::string& name) : name(name) {}] *)
Definition new_Analyzer (name : string) : Analyzer :=
  {| name := name; data := [] |}.

(** [void addData(int value) { data.push_back(value); }] *)
Definition addData (this : Analyzer) (value : Z) : Analyzer :=
  {| name := name this; data := data this ++ [value] |}.

(** [data.size()], a [size_t]. *)
Definition size (v : list Z) : Z := Z.of_nat (List.length v).

(** [data.empty()] *)
Definition empty (v : list Z) : bool :=
  match v with
  | [] => true
  | _ :: _ => false
  end.

(** The body of the range-for loop: [sum += value]. *)
Definition accumulate (sum : double) (value : Z) : double :=
  Double.add sum (Double.of_Z value).

(** [double calculateAverage() const]: [None] stands for undefined
    behaviour (a division by zero), which the guard is there to exclude. *)
Definition calculateAverage (this : Analyzer) : option double :=
  if empty (data this) then Some Double.zero
  else
    let sum := fold_left accumulate (data this) Double.zero in
    Double.div sum (Double.of_Z (size (data this))).

(** [void printReport() const], as a function of [std::cout]. *)
Definition printReport (this : Analyzer) (cout : ostream) : option ostream :=
  let cout := Ostream.endl (Ostream.put_string (Ostream.put_string cout "Analyzer: ") (name this)) in
  match calculateAverage this with
  | None => None
  | Some average =>
      Some (Ostream.endl (Ostream.put_double (Ostream.put_string cout "Average: ") average))
  end.

(** *** Programs over one [Analyzer]

    A client can only call the three public methods; [call] names one call,
    [reply] is what it returns, and [exec] runs it on the object and
    [std::cout]. *)

Inductive call : Type :=
  | AddData (value : Z)
  | CalculateAverage
  | PrintReport.

Inductive reply : Type :=
  | RVoid
  | RDouble (d : double).

Record world : Type := mkWorld {
  object : Analyzer;
  cout : ostream
}.

Definition exec (c : call) (w : world) : option (reply * world) :=
  match c with
  | AddData value =>
      Some (RVoid, {| object := addData (object w) value; cout := cout w |})
  | CalculateAverage =>
      match calculateAverage (object w) with
      | None => None
      | Some d => Some (RDouble d, w)
      end
  | PrintReport =>
      match printReport (object w) (cout w) with
      | None => None
      | Some os => Some (RVoid, {| object := object w; cout := os |})
      end
  end.

(** Runs the calls in order; the replies are collected in call order. *)
Fixpoint run (cs : list call) (w : world) : option (list reply * world) :=
  match cs with
  | [] => Some ([], w)
  | c :: cs' =>
      match exec c w with
      | None => None
      | Some (r, w') =>
          match run cs' w' with
          | None => None
          | Some (rs, w'') => Some (r :: rs, w'')
          end
      end
  end.

(** The object after [addData] has been called on each value in turn. *)
Definition add_all (this : Analyzer) (values : list Z) : Analyzer :=
  fold_left addData values this.

(** ** Specification-side definitions *)

(** The sum [x_0 + ... + x_(n-1)] of the first [n] doubles of [xs], taken
    from the left, starting from [0.0]. *)
Fixpoint sum_upto (xs : list double) (n : nat) : double :=
  match n with
  | O => Double.zero
  | S n' => Double.add (sum_upto xs n') (nth n' xs Double.zero)
  end.

(** The mean as the specification words it: every sample widened to
    [double], their floating-point sum, divided in floating point by the
    count. *)
Definition mean_spec (samples : list Z) : double :=
  SF64div (sum_upto (map Double.of_Z samples) (List.length samples))
          (Double.of_Z (Z.of_nat (List.length samples))).

(** The exact integer sum of the samples. *)
Definition Zsum (l : list Z) : Z := fold_right Z.add 0 l.

(** The two lines [printReport] writes for an object whose average is
    [average]. *)
Definition report_text (this : Analyzer) (average : double) : string :=
  ("Analyzer: " ++ name this ++ Ostream.newline ++
   "Average: " ++ Ostream.format_double average ++ Ostream.newline)%string.

(** [n] copies of a text, one after the other. *)
Fixpoint copies (n : nat) (s : string) : string :=
  match n with
  | O => EmptyString
  | S n' => (s ++ copies n' s)%string
  end.

(** The values a sequence of calls passes to [addData], in call order. *)
Fixpoint added_values (cs : list call) : list Z :=
  match cs with
  | [] => []
  | AddData v :: cs' => v :: added_values cs'
  | _ :: cs' => added_values cs'
  end.

(** *** Two orders of one large multiset

    [2^22] samples [INT_MIN] ([block] holds all but one of them) and two
    samples [-1]: their exact sum is [-2^53 - 2].  Added with the two [-1]
    last, each [-1] is lost to rounding once the sum has reached [-2^53]. *)

Definition many : nat := Z.to_nat 4194303.

Definition block : list Z := repeat Int.INT_MIN many.

Definition small_last : list Z := block ++ [Int.INT_MIN; -1; -1].

Definition small_first : list Z := [-1; -1] ++ block ++ [Int.INT_MIN].

(** ** Vocabulary for further properties *)

(** An [int] whose negation is an [int] too: every value but [INT_MIN]. *)
Definition negatable (v : Z) : Prop := Int.INT_MIN < v <= Int.INT_MAX.

(** A name of two lines: "A", a line break, "B". *)
Definition two_line_name : string := ("A" ++ Ostream.newline ++ "B")%string.

(** [mirror x y]: [y] is [x] with the sign flipped, or both are [+0]
    (the sum of opposite values is [+0] whichever way round). *)
Definition mirror (x y : double) : Prop :=
  y = SFopp x \/ (x = Double.zero /\ y = Double.zero).

Definition is_nan (x : double) : bool :=
  match x with
  | S754_nan => true
  | _ => false
  end.

(** A zero or a finite nonzero number: neither an infinity nor NaN. *)
Definition finite_or_zero (x : double) : bool :=
  match x with
  | S754_zero _ | S754_finite _ _ _ => true
  | _ => false
  end.

(** What a sequence of calls writes on [std::cout], call by call:
    [printReport] writes the report of the object as it is at that call,
    the other two methods write nothing. *)
Fixpoint reports (cs : list call) (this : Analyzer) : string :=
  match cs with
  | [] => EmptyString
  | AddData v :: cs' => reports cs' (addData this v)
  | CalculateAverage :: cs' => reports cs' this
  | PrintReport :: cs' =>
      match calculateAverage this with
      | Some average => (report_text this average ++ reports cs' this)%string
      | None => EmptyString
      end
  end.

Definition is_print (c : call) : bool :=
  match c with
  | PrintReport => true
  | _ => false
  end.

(** The number of line breaks in a text. *)
Fixpoint line_breaks (s : string) : nat :=
  match s with
  | EmptyString => O
  | String c r => ((if Ascii.eqb c (ascii_of_nat 10) then 1 else 0) + line_breaks r)%nat
  end.

(** * Facts about binary64 rounding

    The Standard Library specifies the operations but proves nothing about
    them; what the mean needs is established here from the definitions:
    rounding depends on the value only, an integer below [2^53] converts
    exactly, the sum of two such integers is rounded once, and a nonzero
    integer never converts to zero. *)

Module DoubleFacts.

Import Double.

Section Rounding.
Variables prec emax : Z.

Lemma shl_add j k p : shl j (shl k p) = shl (j + k) p.
Proof. unfold shl. now rewrite Nat.iter_add. Qed.

Lemma shl_S k p : shl (S k) p = xO (shl k p).
Proof. reflexivity. Qed.

Lemma Zpos_shl k p : Zpos (shl k p) = Zpos p * 2 ^ Z.of_nat k.
Proof.
  induction k as [|k IH].
  - simpl. lia.
  - rewrite shl_S, Pos2Z.inj_xO, IH, Nat2Z.inj_succ, Z.pow_succ_r by lia. ring.
Qed.

Lemma digits2_shl k p :
  Zpos (digits2_pos (shl k p)) = Zpos (digits2_pos p) + Z.of_nat k.
Proof.
  induction k as [|k IH].
  - simpl. lia.
  - rewrite shl_S. cbn [digits2_pos]. rewrite Pos2Z.inj_succ, IH. lia.
Qed.

Lemma iter_pos_nat {A} (f : A -> A) n x :
  iter_pos f n x = Nat.iter (Pos.to_nat n) f x.
Proof.
  revert x. induction n as [n IH|n IH|]; intros x; cbn [iter_pos].
  - rewrite !IH, Pos2Nat.inj_xI, <- Nat.iter_add, <- Nat.iter_succ_r. f_equal. lia.
  - rewrite !IH, Pos2Nat.inj_xO, <- Nat.iter_add. f_equal. lia.
  - reflexivity.
Qed.

Lemma pos_iter_shl p n : Pos.iter xO p n = shl (Pos.to_nat n) p.
Proof. unfold shl. apply Pos2Nat.inj_iter. Qed.

Lemma shl_align_spec m e e' :
  shl_align m e e' = if e' <? e then (shl (Z.to_nat (e - e')) m, e') else (m, e).
Proof.
  unfold shl_align. destruct (Z.ltb_spec e' e) as [H|H].
  - destruct (e' - e) as [|d|d] eqn:E; try lia.
    rewrite pos_iter_shl. do 2 f_equal. lia.
  - destruct (e' - e) as [|d|d] eqn:E; try lia; reflexivity.
Qed.

Lemma shr_spec mrs e n :
  shr mrs e n = if 0 <? n then (Nat.iter (Z.to_nat n) shr_1 mrs, e + n) else (mrs, e).
Proof.
  unfold shr. destruct n as [|n|n]; try reflexivity.
  cbn [Z.ltb Z.compare]. rewrite iter_pos_nat. reflexivity.
Qed.

Lemma shr_1_shl k p : Nat.iter k shr_1 (exact (shl k p)) = exact p.
Proof.
  induction k as [|k IH]; [reflexivity|].
  rewrite Nat.iter_succ_r, shl_S. exact IH.
Qed.

Lemma shr_shift k p e n :
  0 <= n ->
  shr (exact (shl k p)) (e - Z.of_nat k) (n + Z.of_nat k) = shr (exact p) e n.
Proof.
  intros Hn. rewrite !shr_spec.
  destruct (Z.ltb_spec 0 (n + Z.of_nat k)) as [H|H].
  - replace (Z.to_nat (n + Z.of_nat k)) with (Z.to_nat n + k)%nat by lia.
    rewrite Nat.iter_add, shr_1_shl.
    destruct (Z.ltb_spec 0 n) as [H'|H'].
    + f_equal. lia.
    + replace n with 0 by lia. cbn [Z.to_nat Nat.iter]. f_equal. lia.
  - assert (n = 0) by lia. assert (k = 0%nat) by lia. subst. cbn. f_equal. lia.
Qed.

Lemma binary_round_aux_eq s m e :
  binary_round_aux prec emax s (Zpos m) e loc_Exact =
  let '(mrs', e') := shr (exact m) e (fexp prec emax (Zpos (digits2_pos m) + e) - e) in
   let '(mrs'', e'') := shr_fexp prec emax (round_nearest_even (shr_m mrs') (loc_of_shr_record mrs')) e' loc_Exact in
    match shr_m mrs'' with
    | Z0 => S754_zero s
    | Zpos m => if Z.leb e'' (Z.sub emax prec) then S754_finite s m e'' else S754_infinity s
    | _ => S754_nan
    end.
Proof. reflexivity. Qed.

(** Rounding depends on the value [m * 2^e] only. *)
Lemma binary_round_shift s k p e :
  binary_round prec emax s (shl k p) (e - Z.of_nat k) = binary_round prec emax s p e.
Proof.
  unfold binary_round. rewrite digits2_shl.
  replace (Zpos (digits2_pos p) + Z.of_nat k + (e - Z.of_nat k))
    with (Zpos (digits2_pos p) + e) by lia.
  set (f := fexp prec emax (Zpos (digits2_pos p) + e)).
  rewrite !shl_align_spec.
  destruct (Z.ltb_spec f e) as [H1|H1].
  - destruct (Z.ltb_spec f (e - Z.of_nat k)) as [H2|H2].
    + rewrite shl_add. do 3 f_equal. lia.
    + rewrite !binary_round_aux_eq.
      rewrite !digits2_shl.
      replace (Zpos (digits2_pos p) + Z.of_nat k + (e - Z.of_nat k))
        with (Zpos (digits2_pos p) + e) by lia.
      replace (Zpos (digits2_pos p) + Z.of_nat (Z.to_nat (e - f)) + f)
        with (Zpos (digits2_pos p) + e) by lia.
      fold f.
      replace (shl k p) with (shl (k - Z.to_nat (e - f)) (shl (Z.to_nat (e - f)) p))
        by (rewrite shl_add; f_equal; lia).
      replace (e - Z.of_nat k) with (f - Z.of_nat (k - Z.to_nat (e - f))) by lia.
      replace (f - (f - Z.of_nat (k - Z.to_nat (e - f)))) with (0 + Z.of_nat (k - Z.to_nat (e - f))) by lia.
      rewrite shr_shift by lia.
      replace (f - f) with 0 by lia. reflexivity.
  - destruct (Z.ltb_spec f (e - Z.of_nat k)) as [H2|H2]; [lia|].
    rewrite !binary_round_aux_eq, digits2_shl.
    replace (Zpos (digits2_pos p) + Z.of_nat k + (e - Z.of_nat k))
      with (Zpos (digits2_pos p) + e) by lia.
    fold f.
    replace (f - (e - Z.of_nat k)) with ((f - e) + Z.of_nat k) by lia.
    rewrite shr_shift by lia. reflexivity.
Qed.

End Rounding.

Section Normal.
Variables prec emax : Z.

Lemma binary_round_normal s M E :
  Zpos (digits2_pos M) = prec ->
  SpecFloat.emin prec emax <= E <= emax - prec ->
  binary_round prec emax s M E = S754_finite s M E.
Proof.
  intros HM HE. unfold binary_round.
  assert (Hf : fexp prec emax (Zpos (digits2_pos M) + E) = E).
  { unfold fexp. rewrite HM. lia. }
  rewrite Hf, shl_align_spec, Z.ltb_irrefl, binary_round_aux_eq, Hf, Z.sub_diag, shr_spec.
  cbn [Z.ltb Z.compare exact shr_m loc_of_shr_record round_nearest_even shr_r shr_s].
  unfold shr_fexp. cbn [Zdigits2 shr_record_of_loc]. fold (exact M).
  rewrite Hf, Z.sub_diag, shr_spec. cbn [Z.ltb Z.compare exact shr_m].
  destruct (Z.leb_spec E (emax - prec)); [reflexivity|lia].
Qed.

Lemma binary_normalize_shift k c e sz :
  binary_normalize prec emax (c * 2 ^ Z.of_nat k) (e - Z.of_nat k) sz =
  binary_normalize prec emax c e sz.
Proof.
  destruct c as [|p|p].
  - reflexivity.
  - rewrite <- Zpos_shl. apply binary_round_shift.
  - change (Zneg p) with (- Zpos p). rewrite Z.mul_opp_l, <- Zpos_shl.
    apply binary_round_shift.
Qed.
End Normal.

Lemma digits2_lt p : Zpos p < 2 ^ Zpos (digits2_pos p).
Proof.
induction p as [p IH|p IH|]; cbn [digits2_pos]; try rewrite Pos2Z.inj_succ, Z.pow_succ_r by lia; try lia.
Qed.

Lemma digits2_le p : 2 ^ (Zpos (digits2_pos p) - 1) <= Zpos p.
Proof.
induction p as [p IH|p IH|]; cbn [digits2_pos]; try rewrite Pos2Z.inj_succ; 
  try (replace (Z.succ (Zpos (digits2_pos p)) - 1) with (Z.succ (Zpos (digits2_pos p) - 1)) by lia;
  rewrite Z.pow_succ_r by lia); try lia.
Qed.

Lemma digits2_small p : Zpos p < 2 ^ 53 -> Zpos (digits2_pos p) <= 53.
Proof.
intros H. destruct (Z.le_gt_cases (Zpos (digits2_pos p)) 53) as [L|L]; [exact L|].
pose proof (digits2_le p) as Hp.
assert (2 ^ 53 <= 2 ^ (Zpos (digits2_pos p) - 1)) by (apply Z.pow_le_mono_r; lia).
lia.
Qed.

Lemma binary_round_small s p :
Zpos p < 2 ^ 53 ->
binary_round prec emax s p 0 = S754_finite s (shl (lead p) p) (- Z.of_nat (lead p)).
Proof.
intros H. pose proof (digits2_small p H) as Hd.
rewrite <- (binary_round_shift prec emax s (lead p) p 0).
rewrite Z.sub_0_l. apply binary_round_normal.
- rewrite digits2_shl. unfold lead, prec in *. lia.
- unfold lead, SpecFloat.emin, emax, prec in *. lia.
Qed.

Lemma of_Z_pos p : of_Z (Zpos p) = binary_round prec emax false p 0.
Proof. reflexivity. Qed.
Lemma of_Z_neg p : of_Z (Zneg p) = binary_round prec emax true p 0.
Proof. reflexivity. Qed.

Lemma shl_align_fst_min p j k :
fst (shl_align (shl j p) (- Z.of_nat j) (Z.min (- Z.of_nat j) (- Z.of_nat k))) = shl (Nat.max j k) p.
Proof.
rewrite shl_align_spec.
destruct (Z.ltb_spec (Z.min (- Z.of_nat j) (- Z.of_nat k)) (- Z.of_nat j)) as [H|H]; cbn [fst].
- rewrite shl_add. f_equal. lia.
- f_equal. lia.
Qed.

Lemma add_finite_exact sa sb pa pb j k :
add (S754_finite sa (shl j pa) (- Z.of_nat j)) (S754_finite sb (shl k pb) (- Z.of_nat k)) =
of_Z (cond_Zopp sa (Zpos pa) + cond_Zopp sb (Zpos pb)).
Proof.
unfold add, SF64add, SFadd.
rewrite (shl_align_fst_min pa j k).
rewrite Z.min_comm, (shl_align_fst_min pb k j), (Nat.max_comm k j).
rewrite !Zpos_shl.
replace (cond_Zopp sa (Zpos pa * 2 ^ Z.of_nat (Nat.max j k)) + cond_Zopp sb (Zpos pb * 2 ^ Z.of_nat (Nat.max j k)))
  with ((cond_Zopp sa (Zpos pa) + cond_Zopp sb (Zpos pb)) * 2 ^ Z.of_nat (Nat.max j k))
  by (destruct sa, sb; cbn [cond_Zopp]; ring).
replace (Z.min (- Z.of_nat k) (- Z.of_nat j)) with (0 - Z.of_nat (Nat.max j k)) by lia.
apply binary_normalize_shift.
Qed.

(** Addition of two integers below [2^53] is correctly rounded: the sum is
  computed exactly and rounded once. *)
Lemma of_Z_small z :
Z.abs z < 2 ^ 53 ->
of_Z z =
match z with
| Z0 => S754_zero false
| Zpos p => S754_finite false (shl (lead p) p) (- Z.of_nat (lead p))
| Zneg p => S754_finite true (shl (lead p) p) (- Z.of_nat (lead p))
end.
Proof.
destruct z as [|p|p]; intros H; [reflexivity| |];
  unfold of_Z, binary_normalize; apply binary_round_small; lia.
Qed.

Lemma add_of_Z a b :
Z.abs a < 2 ^ 53 -> Z.abs b < 2 ^ 53 -> add (of_Z a) (of_Z b) = of_Z (a + b).
Proof.
intros Ha Hb.
rewrite (of_Z_small a Ha), (of_Z_small b Hb).
destruct a as [|pa|pa]; destruct b as [|pb|pb];
  try (rewrite add_finite_exact; reflexivity).
- reflexivity.
- rewrite Z.add_0_l, (of_Z_small _ Hb). reflexivity.
- rewrite Z.add_0_l, (of_Z_small _ Hb). reflexivity.
- rewrite Z.add_0_r, (of_Z_small _ Ha). reflexivity.
- rewrite Z.add_0_r, (of_Z_small _ Ha). reflexivity.
Qed.

Section NonZero.
Variables prec emax : Z.
Hypothesis prec_pos : 0 < prec.

Lemma shr_1_m mrs : 0 <= shr_m mrs -> shr_m (shr_1 mrs) = shr_m mrs / 2.
Proof.
  destruct mrs as [m r s]. cbn [shr_m]. intros H. rewrite <- Z.div2_div.
  destruct m as [|[p|p|]|p]; try reflexivity. lia.
Qed.

Lemma shr_iter_m n mrs :
  0 <= shr_m mrs -> shr_m (Nat.iter n shr_1 mrs) = shr_m mrs / 2 ^ Z.of_nat n.
Proof.
  intros H. induction n as [|n IH].
  - cbn. now rewrite Z.div_1_r.
  - rewrite Nat.iter_succ, shr_1_m, IH.
    + rewrite Z.div_div by lia. f_equal. rewrite Nat2Z.inj_succ, Z.pow_succ_r by lia. ring.
    + rewrite IH. apply Z.div_pos; lia.
Qed.

Lemma shr_record_of_loc_m m l : shr_m (shr_record_of_loc m l) = m.
Proof. destruct l as [|[| |]]; reflexivity. Qed.

(** Rounding a positive mantissa never shifts all of its bits out. *)
Lemma shr_fexp_pos p e l :
  SpecFloat.emin prec emax <= e ->
  0 < shr_m (fst (shr_fexp prec emax (Zpos p) e l)) /\
  e <= snd (shr_fexp prec emax (Zpos p) e l).
Proof.
  intros He. unfold shr_fexp. rewrite shr_spec. cbn [Zdigits2].
  set (d := Zpos (digits2_pos p)).
  set (n := fexp prec emax (d + e) - e).
  destruct (Z.ltb_spec 0 n) as [Hn|Hn]; cbn [fst snd].
  - split; [|lia].
    rewrite shr_iter_m by (rewrite shr_record_of_loc_m; lia).
    rewrite shr_record_of_loc_m, Z2Nat.id by lia.
    assert (Hd : n <= d - 1) by (unfold n, fexp; lia).
    pose proof (digits2_le p) as Hp. fold d in Hp.
    assert (2 ^ n <= 2 ^ (d - 1)) by (apply Z.pow_le_mono_r; lia).
    apply Z.div_str_pos. lia.
  - rewrite shr_record_of_loc_m. lia.
Qed.

Lemma round_nearest_even_pos m l : 0 < m -> 0 < round_nearest_even m l.
Proof.
  intros H. destruct l as [|[| |]]; cbn [round_nearest_even]; try lia.
  destruct (Z.even m); lia.
Qed.

Lemma binary_round_aux_nonzero s p e l :
  SpecFloat.emin prec emax <= e ->
  match binary_round_aux prec emax s (Zpos p) e l with
  | S754_zero _ | S754_nan => False
  | _ => True
  end.
Proof.
  intros He. unfold binary_round_aux.
  destruct (shr_fexp_pos p e l He) as [H1 H1'].
  destruct (shr_fexp prec emax (Zpos p) e l) as [mrs' e']. cbn [fst snd] in *.
  pose proof (round_nearest_even_pos (shr_m mrs') (loc_of_shr_record mrs') H1) as H2.
  destruct (round_nearest_even (shr_m mrs') (loc_of_shr_record mrs')) as [|q|q]; try lia.
  assert (He' : SpecFloat.emin prec emax <= e') by lia.
  destruct (shr_fexp_pos q e' loc_Exact He') as [H3 _].
  destruct (shr_fexp prec emax (Zpos q) e' loc_Exact) as [mrs'' e'']. cbn [fst] in H3.
  destruct (shr_m mrs'') as [|r|r]; try lia.
  destruct (e'' <=? emax - prec); exact I.
Qed.

Lemma binary_round_nonzero s p e :
  SpecFloat.emin prec emax <= e ->
  match binary_round prec emax s p e with
  | S754_zero _ | S754_nan => False
  | _ => True
  end.
Proof.
  intros He. unfold binary_round. rewrite shl_align_spec.
  destruct (Z.ltb_spec (fexp prec emax (Zpos (digits2_pos p) + e)) e);
    apply binary_round_aux_nonzero; unfold fexp; lia.
Qed.
End NonZero.

Lemma of_Z_nonzero z : z <> 0 -> is_zero (of_Z z) = false.
Proof.
intros H. destruct z as [|p|p]; [lia| |]; unfold of_Z, binary_normalize.
- pose proof (binary_round_nonzero prec emax eq_refl false p 0) as B.
  destruct (binary_round prec emax false p 0); try reflexivity.
  exfalso. apply B. unfold SpecFloat.emin, prec, emax. lia.
- pose proof (binary_round_nonzero prec emax eq_refl true p 0) as B.
  destruct (binary_round prec emax true p 0); try reflexivity.
  exfalso. apply B. unfold SpecFloat.emin, prec, emax. lia.
Qed.

End DoubleFacts.

(** * The Analyzer *)

Section AnalyzerFacts.

Import Double.

(** ** The object after a series of [addData] calls *)

Lemma data_add_all (this : Analyzer) (values : list Z) :
  data (add_all this values) = data this ++ values.
Proof.
  revert this. induction values as [|v vs IH]; intros this; cbn [add_all fold_left].
  - now rewrite app_nil_r.
  - change (fold_left addData vs (addData this v)) with (add_all (addData this v) vs).
    rewrite IH. cbn [addData data]. now rewrite <- app_assoc.
Qed.

Lemma name_add_all (this : Analyzer) (values : list Z) :
  name (add_all this values) = name this.
Proof.
  revert this. induction values as [|v vs IH]; intros this; [reflexivity|].
  cbn [add_all fold_left].
  change (fold_left addData vs (addData this v)) with (add_all (addData this v) vs).
  now rewrite IH.
Qed.

Lemma data_new_add_all (n : string) (values : list Z) :
  data (add_all (new_Analyzer n) values) = values.
Proof. now rewrite data_add_all. Qed.

(** ** The loop computes the left-to-right sum *)

Lemma sum_upto_app (xs ys : list double) (n : nat) :
  (n <= List.length xs)%nat -> sum_upto (xs ++ ys) n = sum_upto xs n.
Proof.
  induction n as [|n IH]; intros H; [reflexivity|].
  cbn [sum_upto]. rewrite IH by lia. now rewrite app_nth1 by lia.
Qed.

Lemma loop_is_sum_upto (samples : list Z) :
  fold_left accumulate samples zero =
  sum_upto (map of_Z samples) (List.length samples).
Proof.
  induction samples as [|v vs IH] using rev_ind; [reflexivity|].
  rewrite fold_left_app, last_length, map_app. cbn [fold_left map sum_upto].
  unfold accumulate at 1. rewrite IH. f_equal.
  - now rewrite sum_upto_app by (rewrite length_map; lia).
  - rewrite <- (length_map of_Z vs). now rewrite nth_middle.
Qed.

(** ** The division is always defined past the guard *)

Lemma size_nonzero (v : list Z) : empty v = false -> size v <> 0.
Proof. destruct v; [discriminate|]. unfold size. cbn [List.length]. lia. Qed.

Lemma div_by_size (x : double) (v : list Z) :
  empty v = false -> div x (of_Z (size v)) = Some (SF64div x (of_Z (size v))).
Proof.
  intros H. unfold div.
  now rewrite (DoubleFacts.of_Z_nonzero _ (size_nonzero v H)).
Qed.

Lemma calculateAverage_nonempty (this : Analyzer) :
  empty (data this) = false ->
  calculateAverage this =
  Some (SF64div (fold_left accumulate (data this) zero) (of_Z (size (data this)))).
Proof.
  intros H. unfold calculateAverage. rewrite H. now apply div_by_size.
Qed.

Lemma calculateAverage_guarded (this : Analyzer) :
  empty (data this) = true -> calculateAverage this = Some zero.
Proof. intros H. unfold calculateAverage. now rewrite H. Qed.

Lemma calculateAverage_total (this : Analyzer) :
  exists average, calculateAverage this = Some average.
Proof.
  destruct (empty (data this)) eqn:E.
  - exists zero. now apply calculateAverage_guarded.
  - eexists. now apply calculateAverage_nonempty.
Qed.

End AnalyzerFacts.

(** ** The mean *)

(** C1. After any finite, non-empty sequence of integers has been added by
    [addData], one call per integer, [calculateAverage] returns their sum
    divided by their count, where every integer is first widened to
    [double], the sum is the floating-point sum taken in insertion order,
    and the division is the floating-point division ([mean_spec]).  The
    empty sequence is the guarded case, for which a sum divided by the count
    is not defined. *)
Theorem calculateAverage_is_mean (n : string) (samples : list Z) :
  empty samples = false ->
  calculateAverage (add_all (new_Analyzer n) samples) = Some (mean_spec samples).
Proof.
  intros H. rewrite calculateAverage_nonempty; rewrite data_new_add_all; [|exact H].
  unfold mean_spec, size. now rewrite loop_is_sum_upto.
Qed.

Lemma calculateAverage_is_mean_witness :
  empty [7] = false /\
  calculateAverage (add_all (new_Analyzer "Sensor-D") [7]) = Some (mean_spec [7]).
Proof.
  split; [reflexivity|].
  apply (calculateAverage_is_mean "Sensor-D" [7]). reflexivity.
Defined.

(** C2. For every Analyzer whose sample sequence is empty,
    [calculateAverage] returns exactly [0.0]; the call is defined (it is
    [Some], no error). *)
Theorem calculateAverage_empty (this : Analyzer) :
  empty (data this) = true -> calculateAverage this = Some Double.zero.
Proof. exact (calculateAverage_guarded this). Qed.

Lemma calculateAverage_empty_witness :
  empty (data (new_Analyzer "Sensor-A")) = true /\
  calculateAverage (new_Analyzer "Sensor-A") = Some Double.zero.
Proof.
  split; [reflexivity|].
  apply (calculateAverage_empty (new_Analyzer "Sensor-A")). reflexivity.
Defined.

(** A freshly constructed Analyzer is such an object, whatever its name. *)
Lemma calculateAverage_fresh (n : string) :
  calculateAverage (new_Analyzer n) = Some (Double.lit 0%float).
Proof. reflexivity. Qed.

(** C9. With name "Sensor-B" and the samples 10, 20, 30 added in that
    order, [calculateAverage] returns exactly [20.0]. *)
Theorem calculateAverage_sensor_b :
  calculateAverage (add_all (new_Analyzer "Sensor-B") [10; 20; 30]) =
  Some (Double.lit 20%float).
Proof. vm_compute. reflexivity. Qed.

(** The literal [20.0] is the integer 20 converted. *)
Lemma lit_20 : Double.lit 20%float = Double.of_Z 20.
Proof. vm_compute. reflexivity. Qed.

(** A single sample [7] has mean exactly [7.0]. *)
Lemma calculateAverage_single_7 (n : string) :
  calculateAverage (add_all (new_Analyzer n) [7]) = Some (Double.lit 7%float).
Proof. vm_compute. reflexivity. Qed.

(** ** Order of insertion *)

Section Order.

Import Double.

Lemma Zsum_permutation (l1 l2 : list Z) : Permutation l1 l2 -> Zsum l1 = Zsum l2.
Proof.
  induction 1 as [|x l l' _ IH|x y l|l l' l'' _ IH1 _ IH2]; cbn [Zsum fold_right] in *.
  - reflexivity.
  - unfold Zsum in IH. lia.
  - lia.
  - congruence.
Qed.

Lemma Zsum_repeat (x : Z) (n : nat) : Zsum (repeat x n) = x * Z.of_nat n.
Proof.
  induction n as [|n IH]; [cbn; lia|].
  cbn [repeat Zsum fold_right]. unfold Zsum in IH. rewrite IH. lia.
Qed.

Lemma int_range_small (v : Z) : Int.int_range v -> Z.abs v <= 2 ^ 31.
Proof. unfold Int.int_range, Int.INT_MIN, Int.INT_MAX. lia. Qed.

(** As long as no partial sum reaches [2^53] in magnitude the loop adds
    without rounding: it holds the exact integer sum, converted once. *)
Lemma loop_exact (l : list Z) (s : Z) :
  Forall Int.int_range l ->
  Z.abs s + 2 ^ 31 * Z.of_nat (List.length l) < 2 ^ 53 + 2 ^ 31 ->
  fold_left accumulate l (of_Z s) = of_Z (s + Zsum l).
Proof.
  revert s. induction l as [|v l IH]; intros s HF Hb.
  - cbn [fold_left Zsum fold_right]. now rewrite Z.add_0_r.
  - inversion HF as [|? ? Hv HF']; subst.
    apply int_range_small in Hv.
    cbn [List.length] in Hb. rewrite Nat2Z.inj_succ in Hb.
    cbn [fold_left]. unfold accumulate at 2.
    rewrite DoubleFacts.add_of_Z by lia.
    rewrite IH by (trivial; lia).
    cbn [Zsum fold_right]. f_equal. unfold Zsum. lia.
Qed.

(** Up to [2^22] samples, the mean is the exact sum, rounded once, divided by
    the count. *)
Lemma calculateAverage_exact (n : string) (samples : list Z) :
  Forall Int.int_range samples ->
  Z.of_nat (List.length samples) <= 2 ^ 22 ->
  empty samples = false ->
  calculateAverage (add_all (new_Analyzer n) samples) =
  Some (SF64div (of_Z (Zsum samples)) (of_Z (size samples))).
Proof.
  intros HF Hlen Hne.
  rewrite calculateAverage_nonempty; rewrite data_new_add_all; [|exact Hne].
  change zero with (of_Z 0). rewrite loop_exact by (trivial; cbn [Z.abs]; lia).
  now rewrite Z.add_0_l.
Qed.

Lemma empty_permutation (l1 l2 : list Z) :
  Permutation l1 l2 -> empty l1 = empty l2.
Proof.
  intros HP. pose proof (Permutation_length HP) as HL.
  destruct l1, l2; try reflexivity; discriminate.
Qed.

(** *** The large multiset *)

Lemma many_value : Z.of_nat many = 4194303.
Proof. unfold many. rewrite Z2Nat.id; lia. Qed.

Lemma length_block : List.length block = many.
Proof. apply repeat_length. Qed.

Lemma block_in_range : Forall Int.int_range block.
Proof.
  apply Forall_forall. intros x Hx. apply repeat_spec in Hx. subst x.
  unfold Int.int_range, Int.INT_MIN, Int.INT_MAX. lia.
Qed.

Lemma Zsum_block : Zsum block = - 9007197107257344.
Proof.
  unfold block. rewrite Zsum_repeat, many_value. reflexivity.
Qed.

Lemma loop_block (s : Z) :
  Z.abs s < 2 ^ 32 ->
  fold_left accumulate block (of_Z s) = of_Z (s - 9007197107257344).
Proof.
  intros Hs. rewrite loop_exact.
  - rewrite Zsum_block. reflexivity.
  - exact block_in_range.
  - rewrite length_block, many_value. lia.
Qed.

Lemma loop_small_last :
  fold_left accumulate small_last zero = of_Z (- 2 ^ 53).
Proof.
  unfold small_last. rewrite fold_left_app.
  change zero with (of_Z 0). rewrite loop_block by (cbn; lia).
  vm_compute. reflexivity.
Qed.

Lemma loop_small_first :
  fold_left accumulate small_first zero = of_Z (- 2 ^ 53 - 2).
Proof.
  unfold small_first. rewrite !fold_left_app.
  change (fold_left accumulate [-1; -1] zero) with (of_Z (-2)).
  rewrite loop_block by (cbn; lia).
  vm_compute. reflexivity.
Qed.

Lemma size_app (l r : list Z) : size (l ++ r) = size l + size r.
Proof. unfold size. rewrite length_app. lia. Qed.

Lemma size_block : size block = 4194303.
Proof. unfold size. now rewrite length_block, many_value. Qed.

Lemma size_small_last : size small_last = 4194306.
Proof. unfold small_last. now rewrite size_app, size_block. Qed.

Lemma size_small_first : size small_first = 4194306.
Proof. unfold small_first. now rewrite !size_app, size_block. Qed.

Lemma empty_app_cons (l r : list Z) (x : Z) : empty (l ++ x :: r) = false.
Proof. now destruct l. Qed.

Lemma calculateAverage_small_last (n : string) :
  calculateAverage (add_all (new_Analyzer n) small_last) =
  Some (SF64div (of_Z (- 2 ^ 53)) (of_Z 4194306)).
Proof.
  rewrite calculateAverage_nonempty; rewrite data_new_add_all.
  - now rewrite loop_small_last, size_small_last.
  - apply empty_app_cons.
Qed.

Lemma calculateAverage_small_first (n : string) :
  calculateAverage (add_all (new_Analyzer n) small_first) =
  Some (SF64div (of_Z (- 2 ^ 53 - 2)) (of_Z 4194306)).
Proof.
  rewrite calculateAverage_nonempty; rewrite data_new_add_all.
  - now rewrite loop_small_first, size_small_first.
  - reflexivity.
Qed.

Lemma small_permutation : Permutation small_last small_first.
Proof.
  unfold small_last, small_first.
  change [Int.INT_MIN; -1; -1] with ([Int.INT_MIN] ++ [-1; -1]).
  rewrite app_assoc. apply Permutation_app_comm.
Qed.

Lemma small_last_in_range : Forall Int.int_range small_last.
Proof.
  unfold small_last. apply Forall_app. split; [exact block_in_range|].
  repeat constructor; unfold Int.INT_MIN, Int.INT_MAX; lia.
Qed.

End Order.

(** C3, as the code has it.  For every multiset of at most [2^22] samples of
    type [int] and every two orderings of it, adding the samples in either
    order yields the same [calculateAverage] result: no partial sum is
    rounded, so both loops hold the exact sum. *)
Theorem calculateAverage_order_independent (n1 n2 : string) (l1 l2 : list Z) :
  Permutation l1 l2 ->
  Forall Int.int_range l1 ->
  Z.of_nat (List.length l1) <= 2 ^ 22 ->
  calculateAverage (add_all (new_Analyzer n1) l1) =
  calculateAverage (add_all (new_Analyzer n2) l2).
Proof.
  intros HP HF Hlen.
  pose proof (empty_permutation l1 l2 HP) as He.
  destruct (empty l1) eqn:E1.
  - rewrite !calculateAverage_guarded; rewrite ?data_new_add_all; congruence.
  - rewrite (calculateAverage_exact n1 l1), (calculateAverage_exact n2 l2); trivial.
    + unfold size. now rewrite (Zsum_permutation l1 l2 HP), (Permutation_length HP).
    + now rewrite <- HP.
    + now rewrite <- (Permutation_length HP).
    + congruence.
Qed.

Lemma calculateAverage_order_independent_witness :
  Permutation [10; 20; 30] [20; 10; 30] /\
  Forall Int.int_range [10; 20; 30] /\
  Z.of_nat (List.length [10; 20; 30]) <= 2 ^ 22 /\
  calculateAverage (add_all (new_Analyzer "Sensor-B") [10; 20; 30]) =
  calculateAverage (add_all (new_Analyzer "Sensor-B") [20; 10; 30]).
Proof.
  assert (HP : Permutation [10; 20; 30] [20; 10; 30]) by apply perm_swap.
  assert (HF : Forall Int.int_range [10; 20; 30])
    by (repeat constructor; unfold Int.INT_MIN, Int.INT_MAX; lia).
  assert (HL : Z.of_nat (List.length [10; 20; 30]) <= 2 ^ 22) by (cbn; lia).
  split; [exact HP|]. split; [exact HF|]. split; [exact HL|].
  exact (calculateAverage_order_independent "Sensor-B" "Sensor-B" _ _ HP HF HL).
Defined.

(** C3 as stated fails: [small_last] and [small_first] are two orderings of
    one multiset of [int] samples, and the two means differ.  The loop over
    [small_last] ends on [-2^53], the loop over [small_first] on
    [-2^53 - 2]. *)
Lemma calculateAverage_order_dependent :
  Permutation small_last small_first /\
  Forall Int.int_range small_last /\
  calculateAverage (add_all (new_Analyzer "Sensor-E") small_last) <>
  calculateAverage (add_all (new_Analyzer "Sensor-E") small_first).
Proof.
  split; [exact small_permutation|]. split; [exact small_last_in_range|].
  rewrite calculateAverage_small_last, calculateAverage_small_first.
  intros H. vm_compute in H. discriminate H.
Qed.

(** ** The report *)

Section Report.

Local Open Scope string_scope.

Lemma append_assoc (a b c : string) : (a ++ b) ++ c = a ++ (b ++ c).
Proof. induction a as [|x a IH]; cbn; [reflexivity|now rewrite IH]. Qed.

Lemma append_nil_r (a : string) : a ++ "" = a.
Proof. induction a as [|x a IH]; cbn; [reflexivity|now rewrite IH]. Qed.

Lemma printReport_text (this : Analyzer) (os : ostream) (average : double) :
  calculateAverage this = Some average ->
  printReport this os = Some (os ++ report_text this average).
Proof.
  intros H. unfold printReport. rewrite H. f_equal.
  unfold Ostream.endl, Ostream.put_double, Ostream.put_string, report_text.
  now rewrite !append_assoc.
Qed.

Lemma printReport_total (this : Analyzer) (os : ostream) :
  exists average,
    calculateAverage this = Some average /\
    printReport this os = Some (os ++ report_text this average).
Proof.
  destruct (calculateAverage_total this) as [average H].
  exists average. split; [exact H|now apply printReport_text].
Qed.

End Report.

(** ** Adding a sample *)

(** C5. For every Analyzer state and every value, [addData] appends exactly
    that value at the end of the samples: the name is unchanged, the stored
    samples keep their values and positions, the new value sits at the old
    length, the length grows by one; the call always succeeds, returns
    nothing and writes nothing. *)
Theorem addData_appends (this : Analyzer) (value : Z) :
  data (addData this value) = data this ++ [value] /\
  name (addData this value) = name this /\
  List.length (data (addData this value)) = S (List.length (data this)) /\
  (forall i, (i < List.length (data this))%nat ->
             nth_error (data (addData this value)) i = nth_error (data this) i) /\
  nth_error (data (addData this value)) (List.length (data this)) = Some value /\
  (forall os, exec (AddData value) {| object := this; cout := os |} =
              Some (RVoid, {| object := addData this value; cout := os |})).
Proof.
  cbn [addData data name exec object cout].
  repeat split.
  - apply last_length.
  - intros i Hi. now apply nth_error_app1.
  - rewrite nth_error_app2, Nat.sub_diag by lia. reflexivity.
Qed.

(** ** Sequences of calls *)

Section Runs.

Lemma exec_effect (c : call) (w : world) :
  exists r w',
    exec c w = Some (r, w') /\
    name (object w') = name (object w) /\
    data (object w') = data (object w) ++ added_values [c].
Proof.
  destruct c as [v| |]; cbn [exec added_values].
  - do 2 eexists. split; [reflexivity|]. cbn [object addData name data]. auto.
  - destruct (calculateAverage_total (object w)) as [d Hd]. rewrite Hd.
    do 2 eexists. split; [reflexivity|]. now rewrite app_nil_r.
  - destruct (printReport_total (object w) (cout w)) as [d [_ Hd]]. rewrite Hd.
    do 2 eexists. split; [reflexivity|]. cbn [object]. now rewrite app_nil_r.
Qed.

Lemma added_values_cons (c : call) (cs : list call) :
  added_values (c :: cs) = added_values [c] ++ added_values cs.
Proof. destruct c; reflexivity. Qed.

Lemma run_effect (cs : list call) (w : world) :
  exists rs w',
    run cs w = Some (rs, w') /\
    List.length rs = List.length cs /\
    name (object w') = name (object w) /\
    data (object w') = data (object w) ++ added_values cs.
Proof.
  revert w. induction cs as [|c cs IH]; intros w.
  - exists [], w. cbn [run added_values]. now rewrite app_nil_r.
  - destruct (exec_effect c w) as (r & w1 & He & Hn & Hd).
    destruct (IH w1) as (rs & w2 & Hr & Hl & Hn' & Hd').
    exists (r :: rs), w2. cbn [run]. rewrite He, Hr.
    split; [reflexivity|]. split; [cbn [List.length]; congruence|].
    split; [congruence|].
    now rewrite Hd', Hd, (added_values_cons c cs), app_assoc.
Qed.

Lemma run_PrintReport (this : Analyzer) (average : double) (n : nat) (os : ostream) :
  calculateAverage this = Some average ->
  run (repeat PrintReport n) {| object := this; cout := os |} =
  Some (repeat RVoid n,
        {| object := this; cout := (os ++ copies n (report_text this average))%string |}).
Proof.
  intros H. revert os. induction n as [|n IH]; intros os.
  - cbn [repeat run copies]. now rewrite append_nil_r.
  - cbn [repeat run exec object cout copies].
    rewrite (printReport_text this os average H), IH.
    now rewrite append_assoc.
Qed.

End Runs.

(** C6. Every operation is total.  The constructor and [addData] are
    functions without a failing case; each single call ([exec]) and each
    sequence of calls ([run]), from every state, yields its replies and a
    final state: the one step that could be undefined, the division, is
    reached with a nonzero count only. *)
Theorem operations_total :
  (forall c w, exists r w', exec c w = Some (r, w')) /\
  (forall cs w, exists rs w',
      run cs w = Some (rs, w') /\ List.length rs = List.length cs) /\
  (forall this, exists average, calculateAverage this = Some average) /\
  (forall this os, exists os', printReport this os = Some os').
Proof.
  split; [|split; [|split]].
  - intros c w. destruct (exec_effect c w) as (r & w' & H & _). eauto.
  - intros cs w. destruct (run_effect cs w) as (rs & w' & H & Hl & _). eauto.
  - exact calculateAverage_total.
  - intros this os. destruct (printReport_total this os) as (d & _ & H). eauto.
Qed.

(** Without the guard the division would be undefined on the empty vector. *)
Lemma division_needs_guard (sum : double) :
  Double.div sum (Double.of_Z (size [])) = None.
Proof. reflexivity. Qed.

(** C7. For every Analyzer state there is one text, the report, such that
    any number of [printReport] calls with no [addData] in between append
    that same text once per call, whatever was written before. *)
Theorem printReport_repeatable (this : Analyzer) :
  exists report,
    forall (n : nat) (os : ostream),
      run (repeat PrintReport n) {| object := this; cout := os |} =
      Some (repeat RVoid n, {| object := this; cout := (os ++ copies n report)%string |}).
Proof.
  destruct (calculateAverage_total this) as [average H].
  exists (report_text this average). intros n os. now apply run_PrintReport.
Qed.

(** C8. The samples are append-only and the name is fixed.  Every sequence
    of calls runs to a final state in which the name is the one before, and
    the samples are the samples before followed by the values passed to
    [addData], in call order: the length never decreases and the earlier
    samples are still the first ones, unchanged and in the same order. *)
Theorem samples_append_only (cs : list call) (w : world) :
  exists rs w',
    run cs w = Some (rs, w') /\
    name (object w') = name (object w) /\
    data (object w') = data (object w) ++ added_values cs /\
    (List.length (data (object w)) <= List.length (data (object w')))%nat /\
    firstn (List.length (data (object w))) (data (object w')) = data (object w).
Proof.
  destruct (run_effect cs w) as (rs & w' & Hr & _ & Hn & Hd).
  exists rs, w'. repeat split; trivial.
  - rewrite Hd, length_app. lia.
  - rewrite Hd, firstn_app, Nat.sub_diag, firstn_all. cbn [firstn]. apply app_nil_r.
Qed.

(** C10. [calculateAverage] and [printReport] are queries: from every state
    the call succeeds and leaves the object (name and samples) as it was;
    [calculateAverage] leaves standard output as it was too. *)
Theorem queries_preserve_state (w : world) :
  (exists d, exec CalculateAverage w = Some (RDouble d, w)) /\
  (exists os, exec PrintReport w = Some (RVoid, {| object := object w; cout := os |})).
Proof.
  split; cbn [exec].
  - destruct (calculateAverage_total (object w)) as [d H]. rewrite H. eauto.
  - destruct (printReport_total (object w) (cout w)) as (d & _ & H). rewrite H. eauto.
Qed.

(** * Further properties of the Analyzer *)

Module DivisionFacts.

Import Double DoubleFacts.

Lemma div_eucl_pair (a b : Z) : Z.div_eucl a b = (a / b, a mod b).
Proof. unfold Z.div, Z.modulo. now destruct (Z.div_eucl a b). Qed.

Lemma new_location_zero (m : Z) : new_location m 0 = loc_Exact.
Proof.
  unfold new_location, new_location_even, new_location_odd.
  now destruct (Z.even m).
Qed.

(** The division core on two 53-bit mantissas whose quotient is an
    integer multiple of [2^-53]: quotient with no remainder. *)
Lemma div_core_exact (M1 M2 : positive) (e1 e2 q : Z) :
  Zpos (digits2_pos M1) = 53 ->
  Zpos (digits2_pos M2) = 53 ->
  Zpos M1 * 2 ^ 53 = q * Zpos M2 ->
  - 1000 <= e1 - e2 ->
  SFdiv_core_binary prec emax (Zpos M1) e1 (Zpos M2) e2 = (q, e1 - e2 - 53, loc_Exact).
Proof.
  intros H1 H2 Hq He. unfold SFdiv_core_binary. cbn [Zdigits2]. rewrite H1, H2.
  assert (Hmin : Z.min (fexp prec emax (53 + e1 - (53 + e2))) (e1 - e2) = e1 - e2 - 53).
  { unfold fexp, SpecFloat.emin, prec, emax. lia. }
  rewrite Hmin.
  replace (e1 - e2 - (e1 - e2 - 53)) with 53 by lia.
  cbv beta iota zeta.
  rewrite Z.shiftl_mul_pow2 by lia. rewrite Hq, div_eucl_pair.
  rewrite Z.div_mul, Z.mod_mul by lia.
  now rewrite new_location_zero.
Qed.

Lemma binary_round_no_align s (m : positive) (e : Z) :
  e <= fexp prec emax (Zpos (digits2_pos m) + e) ->
  binary_round prec emax s m e = binary_round_aux prec emax s (Zpos m) e loc_Exact.
Proof.
  intros H. unfold binary_round. rewrite shl_align_spec.
  destruct (Z.ltb_spec (fexp prec emax (Zpos (digits2_pos m) + e)) e); [lia|reflexivity].
Qed.

Lemma digits2_mul (a b : positive) :
  Zpos (digits2_pos (a * b)) <= Zpos (digits2_pos a) + Zpos (digits2_pos b).
Proof.
  pose proof (digits2_lt a) as Ha. pose proof (digits2_lt b) as Hb.
  pose proof (digits2_le (a * b)) as Hab.
  destruct (Z.le_gt_cases (Zpos (digits2_pos (a * b))) (Zpos (digits2_pos a) + Zpos (digits2_pos b))) as [L|L]; [exact L|].
  assert (2 ^ (Zpos (digits2_pos a) + Zpos (digits2_pos b)) <= 2 ^ (Zpos (digits2_pos (a * b)) - 1))
    by (apply Z.pow_le_mono_r; lia).
  rewrite Z.pow_add_r in H by lia.
  rewrite Pos2Z.inj_mul in Hab. nia.
Qed.

Lemma digits2_mul_ge (a b : positive) :
  Zpos (digits2_pos b) <= Zpos (digits2_pos (a * b)).
Proof.
  pose proof (digits2_lt (a * b)) as Hab. pose proof (digits2_le b) as Hb.
  destruct (Z.le_gt_cases (Zpos (digits2_pos b)) (Zpos (digits2_pos (a * b)))) as [L|L]; [exact L|].
  assert (2 ^ Zpos (digits2_pos (a * b)) <= 2 ^ (Zpos (digits2_pos b) - 1))
    by (apply Z.pow_le_mono_r; lia).
  rewrite Pos2Z.inj_mul in Hab. nia.
Qed.

(** Dividing the product [v * n] by [n], all three below [2^53], gives [v]
    back: the quotient is exact, nothing is rounded. *)
Lemma div_finite_exact s (pv pn : positive) :
  Zpos (pv * pn) < 2 ^ 53 ->
  SF64div (S754_finite s (shl (lead (pv * pn)) (pv * pn)) (- Z.of_nat (lead (pv * pn))))
          (S754_finite false (shl (lead pn) pn) (- Z.of_nat (lead pn))) =
  binary_round prec emax s pv 0.
Proof.
  intros H.
  pose proof (digits2_small _ H) as Hd.
  pose proof (digits2_mul pv pn) as Hm.
  pose proof (digits2_mul_ge pv pn) as Hg.
  set (j1 := lead (pv * pn)). set (j2 := lead pn).
  assert (Hj1 : Z.of_nat j1 = 53 - Zpos (digits2_pos (pv * pn))) by (unfold j1, lead, prec; lia).
  assert (Hj2 : Z.of_nat j2 = 53 - Zpos (digits2_pos pn)) by (unfold j2, lead, prec; lia).
  set (k := (53 + j1 - j2)%nat).
  unfold SF64div, SFdiv.
  rewrite (div_core_exact _ _ _ _ (Zpos (shl k pv))).
  - rewrite xorb_false_r.
    replace (- Z.of_nat j1 - - Z.of_nat j2 - 53) with (0 - Z.of_nat k) by (unfold k; lia).
    rewrite <- binary_round_no_align.
    + apply binary_round_shift.
    + rewrite digits2_shl. unfold fexp, SpecFloat.emin, prec, emax, k. lia.
  - rewrite digits2_shl. lia.
  - rewrite digits2_shl. lia.
  - rewrite !Zpos_shl, Pos2Z.inj_mul.
    replace (Z.of_nat k) with (53 + Z.of_nat j1 - Z.of_nat j2) by (unfold k; lia).
    assert (E : 2 ^ (53 + Z.of_nat j1 - Z.of_nat j2) * 2 ^ Z.of_nat j2 = 2 ^ Z.of_nat j1 * 2 ^ 53).
    { rewrite <- !Z.pow_add_r by lia. f_equal. lia. }
    transitivity (Zpos pv * Zpos pn * (2 ^ Z.of_nat j1 * 2 ^ 53)); [ring|].
    rewrite <- E. ring.
  - lia.
Qed.

Lemma div_of_Z_exact (v n : Z) :
  0 < n < 2 ^ 53 -> Z.abs (v * n) < 2 ^ 53 ->
  SF64div (of_Z (v * n)) (of_Z n) = of_Z v.
Proof.
  intros Hn Hb.
  assert (Hn' : Z.abs n < 2 ^ 53) by lia.
  rewrite (of_Z_small _ Hb), (of_Z_small _ Hn').
  destruct n as [|pn|pn]; try lia.
  destruct v as [|pv|pv]; cbn [Z.mul].
  - reflexivity.
  - apply div_finite_exact. exact Hb.
  - apply div_finite_exact. exact Hb.
Qed.

End DivisionFacts.

(** * Exact means *)

Section ExactMeans.

Import Double.

Lemma Zsum_range (l : list Z) :
  Forall Int.int_range l ->
  Int.INT_MIN * size l <= Zsum l <= Int.INT_MAX * size l.
Proof.
  unfold size. induction 1 as [|v l Hv _ IH].
  - cbn. lia.
  - cbn [Zsum fold_right List.length]. fold (Zsum l).
    unfold Int.int_range, Int.INT_MIN, Int.INT_MAX in *. lia.
Qed.

Lemma calculateAverage_divisible (n : string) (samples : list Z) (v : Z) :
  Forall Int.int_range samples ->
  size samples <= 2 ^ 22 ->
  empty samples = false ->
  Zsum samples = v * size samples ->
  calculateAverage (add_all (new_Analyzer n) samples) = Some (of_Z v).
Proof.
  intros HF Hlen Hne Hv.
  rewrite calculateAverage_exact by trivial. apply f_equal.
  pose proof (Zsum_range samples HF) as HR.
  pose proof (size_nonzero samples Hne) as Hnz.
  assert (Hpos : 0 < size samples) by (unfold size in *; lia).
  unfold Int.INT_MIN, Int.INT_MAX in HR.
  destruct (Z.eq_dec (Zsum samples) (- 2 ^ 53)) as [Hb|Hb].
  - assert (Hs : size samples = 2 ^ 22) by lia.
    assert (v = - 2 ^ 31) by nia. subst v.
    rewrite Hb, Hs. vm_compute. reflexivity.
  - rewrite Hv. apply DivisionFacts.div_of_Z_exact; lia.
Qed.

End ExactMeans.

(** X1. Up to [2^22] samples of type [int], the loop never rounds: the
    mean is the exact integer sum of the samples, converted to [double],
    divided by the count, so that the division is the only rounding. *)
Theorem mean_of_exact_sum (n : string) (samples : list Z) :
  Forall Int.int_range samples ->
  size samples <= 2 ^ 22 ->
  empty samples = false ->
  calculateAverage (add_all (new_Analyzer n) samples) =
  Some (SF64div (Double.of_Z (Zsum samples)) (Double.of_Z (size samples))).
Proof. intros HF Hlen Hne. now apply calculateAverage_exact. Qed.

Lemma mean_of_exact_sum_witness :
  Forall Int.int_range [1; 2] /\ size [1; 2] <= 2 ^ 22 /\ empty [1; 2] = false /\
  calculateAverage (add_all (new_Analyzer "Sensor-C") [1; 2]) =
  Some (SF64div (Double.of_Z (Zsum [1; 2])) (Double.of_Z (size [1; 2]))).
Proof.
  assert (HF : Forall Int.int_range [1; 2])
    by (repeat constructor; unfold Int.INT_MIN, Int.INT_MAX; lia).
  assert (HL : size [1; 2] <= 2 ^ 22) by (cbn; lia).
  split; [exact HF|]. split; [exact HL|]. split; [reflexivity|].
  exact (mean_of_exact_sum "Sensor-C" [1; 2] HF HL eq_refl).
Defined.

(** X2. Up to [2^22] samples of type [int], when the exact sum is a
    multiple [v * count] of the count, the mean is exactly the integer [v]
    as a [double]: nothing is rounded at all. *)
Theorem mean_of_divisible_sum (n : string) (samples : list Z) (v : Z) :
  Forall Int.int_range samples ->
  size samples <= 2 ^ 22 ->
  empty samples = false ->
  Zsum samples = v * size samples ->
  calculateAverage (add_all (new_Analyzer n) samples) = Some (Double.of_Z v).
Proof. apply calculateAverage_divisible. Qed.

Lemma mean_of_divisible_sum_witness :
  Forall Int.int_range [10; 25; -5] /\ size [10; 25; -5] <= 2 ^ 22 /\
  empty [10; 25; -5] = false /\ Zsum [10; 25; -5] = 10 * size [10; 25; -5] /\
  calculateAverage (add_all (new_Analyzer "Sensor-B") [10; 25; -5]) = Some (Double.of_Z 10).
Proof.
  assert (HF : Forall Int.int_range [10; 25; -5])
    by (repeat constructor; unfold Int.INT_MIN, Int.INT_MAX; lia).
  assert (HL : size [10; 25; -5] <= 2 ^ 22) by (cbn; lia).
  split; [exact HF|]. split; [exact HL|]. split; [reflexivity|]. split; [reflexivity|].
  exact (mean_of_divisible_sum "Sensor-B" [10; 25; -5] 10 HF HL eq_refl eq_refl).
Defined.

(** X3. One value of type [int] added between 1 and [2^22] times has
    that value, exactly, as its mean. *)
Theorem mean_of_equal_samples (n : string) (v : Z) (k : nat) :
  Int.int_range v ->
  0 < Z.of_nat k <= 2 ^ 22 ->
  calculateAverage (add_all (new_Analyzer n) (repeat v k)) = Some (Double.of_Z v).
Proof.
  intros Hv Hk.
  apply calculateAverage_divisible.
  - apply Forall_forall. intros x Hx. apply repeat_spec in Hx. now subst.
  - unfold size. rewrite repeat_length. lia.
  - destruct k; [lia|reflexivity].
  - unfold size. now rewrite Zsum_repeat, repeat_length.
Qed.

Lemma mean_of_equal_samples_witness :
  Int.int_range 7 /\ 0 < Z.of_nat 5 <= 2 ^ 22 /\
  calculateAverage (add_all (new_Analyzer "Sensor-D") (repeat 7 5)) = Some (Double.of_Z 7).
Proof.
  assert (Hv : Int.int_range 7) by (unfold Int.int_range, Int.INT_MIN, Int.INT_MAX; lia).
  assert (Hk : 0 < Z.of_nat 5 <= 2 ^ 22) by (cbn; lia).
  split; [exact Hv|]. split; [exact Hk|].
  exact (mean_of_equal_samples "Sensor-D" 7 5 Hv Hk).
Defined.

(** * Sign symmetry and the absence of NaN *)

Module SignFacts.

Import Double DoubleFacts.

Lemma binary_round_aux_opp s m e l :
  binary_round_aux prec emax (negb s) m e l = SFopp (binary_round_aux prec emax s m e l).
Proof.
  unfold binary_round_aux.
  destruct (shr_fexp prec emax m e l) as [mrs' e'].
  destruct (shr_fexp prec emax _ e' loc_Exact) as [mrs'' e''].
  destruct (shr_m mrs''); try reflexivity.
  now destruct (e'' <=? emax - prec).
Qed.

Lemma binary_round_opp s m e :
  binary_round prec emax (negb s) m e = SFopp (binary_round prec emax s m e).
Proof.
  unfold binary_round. destruct (shl_align m e _) as [mz ez].
  apply binary_round_aux_opp.
Qed.

Lemma normalize_mirror (t e : Z) :
  mirror (binary_normalize prec emax t e false) (binary_normalize prec emax (- t) e false).
Proof.
  destruct t as [|p|p]; cbn [Z.opp binary_normalize].
  - right. split; reflexivity.
  - left. apply (binary_round_opp false).
  - left. apply (binary_round_opp true).
Qed.

Lemma cond_Zopp_negb (s : bool) (z : Z) : cond_Zopp (negb s) z = - cond_Zopp s z.
Proof. destruct s; cbn; lia. Qed.

(** Adding opposite values to mirrored sums keeps them mirrored. *)
Lemma add_mirror (x y w : double) :
  mirror x y -> mirror (add x w) (add y (SFopp w)).
Proof.
  intros [-> | [-> ->]].
  - destruct x as [sx|sx| |sx mx ex], w as [sw|sw| |sw mw ew];
      try (left; reflexivity);
      try (destruct sx, sw; (left; reflexivity) || (right; split; reflexivity)).
    unfold add, SF64add, SFadd. cbn [SFopp].
    rewrite !cond_Zopp_negb, <- Z.opp_add_distr.
    apply normalize_mirror.
  - destruct w as [sw|sw| |sw mw ew];
      try (left; reflexivity).
    destruct sw; right; split; reflexivity.
Qed.

(** Adding the value zero. *)
Lemma add_zero_mirror (x y : double) :
  mirror x y -> mirror (add x zero) (add y zero).
Proof.
  intros [-> | [-> ->]].
  - destruct x as [sx|sx| |sx mx ex]; try (left; reflexivity).
    destruct sx; right; split; reflexivity.
  - right. split; reflexivity.
Qed.

Lemma of_Z_opp (v : Z) : v <> 0 -> of_Z (- v) = SFopp (of_Z v).
Proof.
  destruct v as [|p|p]; intros H; [lia| |]; cbn [Z.opp]; unfold of_Z, binary_normalize.
  - apply (binary_round_opp false).
  - apply (binary_round_opp true).
Qed.

Lemma accumulate_mirror (x y : double) (v : Z) :
  mirror x y -> mirror (accumulate x v) (accumulate y (- v)).
Proof.
  intros H. unfold accumulate. destruct (Z.eq_dec v 0) as [->|Hv].
  - now apply add_zero_mirror.
  - rewrite of_Z_opp by trivial. now apply add_mirror.
Qed.

Lemma loop_mirror (l : list Z) (x y : double) :
  mirror x y ->
  mirror (fold_left accumulate l x) (fold_left accumulate (map Z.opp l) y).
Proof.
  revert x y. induction l as [|v l IH]; intros x y H; [exact H|].
  cbn [map fold_left]. apply IH. now apply accumulate_mirror.
Qed.

Lemma xorb_negb_l (a b : bool) : xorb (negb a) b = negb (xorb a b).
Proof. now destruct a, b. Qed.

Lemma div_opp (x c : double) : SF64div (SFopp x) c = SFopp (SF64div x c).
Proof.
  destruct x as [sx|sx| |sx mx ex], c as [sc|sc| |sc mc ec];
    try reflexivity;
    try (cbn; now rewrite xorb_negb_l).
  unfold SF64div, SFdiv. cbn [SFopp].
  destruct (SFdiv_core_binary prec emax (Zpos mx) ex (Zpos mc) ec) as [[mz ez] lz].
  rewrite xorb_negb_l. apply binary_round_aux_opp.
Qed.

(** A count is never zero or NaN, so [+0] divided by it is a zero. *)
Lemma zero_div_count (z : Z) :
  z <> 0 -> is_zero (SF64div zero (of_Z z)) = true.
Proof.
  intros H. unfold of_Z, binary_normalize.
  destruct z as [|p|p]; [lia| |].
  - pose proof (binary_round_nonzero prec emax eq_refl false p 0) as B.
    destruct (binary_round prec emax false p 0); try reflexivity;
      exfalso; apply B; unfold SpecFloat.emin, prec, emax; lia.
  - pose proof (binary_round_nonzero prec emax eq_refl true p 0) as B.
    destruct (binary_round prec emax true p 0); try reflexivity;
      exfalso; apply B; unfold SpecFloat.emin, prec, emax; lia.
Qed.

End SignFacts.

(** X4. Negating every sample negates the mean, for any number of
    samples.  For samples of type [int] other than [INT_MIN] (whose
    negation is no [int]), the negated samples are of type [int] too, and
    if the mean of the samples is [m] and [m] is not a zero, the mean of the
    negated samples is [-m], the same rounding on both sides.  (When it is
    a zero, sums of opposite values being [+0], so is the other one.) *)
Theorem mean_of_negated (n : string) (samples : list Z) (m : double) :
  Forall negatable samples ->
  calculateAverage (add_all (new_Analyzer n) samples) = Some m ->
  Double.is_zero m = false ->
  Forall Int.int_range samples /\
  Forall Int.int_range (map Z.opp samples) /\
  calculateAverage (add_all (new_Analyzer n) (map Z.opp samples)) = Some (SFopp m).
Proof.
  intros HF Hm Hz.
  split; [|split].
  { apply Forall_forall. intros v Hv.
    apply (proj1 (Forall_forall _ _) HF) in Hv.
    unfold negatable, Int.int_range, Int.INT_MIN, Int.INT_MAX in *. lia. }
  { apply Forall_forall. intros v Hv.
    apply in_map_iff in Hv. destruct Hv as (u & <- & Hu).
    apply (proj1 (Forall_forall _ _) HF) in Hu.
    unfold negatable, Int.int_range, Int.INT_MIN, Int.INT_MAX in *. lia. }
  destruct (empty samples) eqn:E.
  - rewrite calculateAverage_guarded in Hm by now rewrite data_new_add_all.
    injection Hm as <-. discriminate Hz.
  - rewrite calculateAverage_nonempty in Hm by now rewrite data_new_add_all.
    rewrite data_new_add_all in Hm. injection Hm as <-.
    assert (E' : empty (map Z.opp samples) = false) by (destruct samples; [discriminate|reflexivity]).
    rewrite calculateAverage_nonempty by now rewrite data_new_add_all.
    rewrite data_new_add_all. apply f_equal.
    replace (size (map Z.opp samples)) with (size samples)
      by (unfold size; now rewrite length_map).
    destruct (SignFacts.loop_mirror samples Double.zero Double.zero) as [-> | [H0 _]].
    + right. split; reflexivity.
    + apply SignFacts.div_opp.
    + rewrite H0, SignFacts.zero_div_count in Hz by now apply size_nonzero.
      discriminate Hz.
Qed.

Lemma mean_of_negated_witness :
  Forall negatable [1; 2] /\
  calculateAverage (add_all (new_Analyzer "Sensor-C") [1; 2]) = Some (Double.lit 1.5%float) /\
  Double.is_zero (Double.lit 1.5%float) = false /\
  Forall Int.int_range [1; 2] /\
  Forall Int.int_range (map Z.opp [1; 2]) /\
  calculateAverage (add_all (new_Analyzer "Sensor-C") (map Z.opp [1; 2])) =
  Some (SFopp (Double.lit 1.5%float)).
Proof.
  assert (HF : Forall negatable [1; 2])
    by (repeat constructor; unfold Int.INT_MIN, Int.INT_MAX; lia).
  assert (H : calculateAverage (add_all (new_Analyzer "Sensor-C") [1; 2]) = Some (Double.lit 1.5%float))
    by (vm_compute; reflexivity).
  assert (Hz : Double.is_zero (Double.lit 1.5%float) = false) by (vm_compute; reflexivity).
  split; [exact HF|]. split; [exact H|]. split; [exact Hz|].
  exact (mean_of_negated "Sensor-C" [1; 2] (Double.lit 1.5%float) HF H Hz).
Defined.

Module NanFacts.

Import Double DoubleFacts.

Lemma shr_fexp_nonneg m e l :
  0 <= m -> 0 <= shr_m (fst (shr_fexp prec emax m e l)).
Proof.
  intros H. unfold shr_fexp. rewrite shr_spec.
  destruct (0 <? _); cbn [fst].
  - rewrite shr_iter_m by (rewrite shr_record_of_loc_m; lia).
    rewrite shr_record_of_loc_m. apply Z.div_pos; lia.
  - rewrite shr_record_of_loc_m. lia.
Qed.

Lemma round_nearest_even_nonneg m l : 0 <= m -> 0 <= round_nearest_even m l.
Proof.
  intros H. destruct l as [|[| |]]; cbn [round_nearest_even]; try lia.
  destruct (Z.even m); lia.
Qed.

(** Rounding a non-negative mantissa never yields NaN. *)
Lemma binary_round_aux_not_nan s m e l :
  0 <= m -> is_nan (binary_round_aux prec emax s m e l) = false.
Proof.
  intros H. unfold binary_round_aux.
  pose proof (shr_fexp_nonneg m e l H) as H1.
  destruct (shr_fexp prec emax m e l) as [mrs' e']. cbn [fst] in H1.
  pose proof (round_nearest_even_nonneg _ (loc_of_shr_record mrs') H1) as H2.
  pose proof (shr_fexp_nonneg _ e' loc_Exact H2) as H3.
  destruct (shr_fexp prec emax _ e' loc_Exact) as [mrs'' e'']. cbn [fst] in H3.
  destruct (shr_m mrs'') as [|r|r]; try reflexivity; [|lia].
  now destruct (e'' <=? emax - prec).
Qed.

Lemma binary_normalize_not_nan t e :
  is_nan (binary_normalize prec emax t e false) = false.
Proof.
  destruct t as [|p|p]; [reflexivity| |]; cbn [binary_normalize]; unfold binary_round;
    destruct (shl_align p e _) as [mz ez]; apply binary_round_aux_not_nan; lia.
Qed.

Lemma add_not_nan (x w : double) :
  is_nan x = false -> finite_or_zero w = true -> is_nan (add x w) = false.
Proof.
  intros Hx Hw.
  destruct x as [sx|sx| |sx mx ex], w as [sw|sw| |sw mw ew]; try discriminate; try reflexivity.
  - now destruct sx, sw.
  - unfold add, SF64add, SFadd. apply binary_normalize_not_nan.
Qed.

Lemma of_Z_finite_or_zero (v : Z) :
  Z.abs v < 2 ^ 53 -> finite_or_zero (of_Z v) = true.
Proof. intros H. rewrite (of_Z_small v H). now destruct v. Qed.

Lemma loop_not_nan (l : list Z) (x : double) :
  Forall Int.int_range l -> is_nan x = false ->
  is_nan (fold_left accumulate l x) = false.
Proof.
  intros HF. revert x. induction HF as [|v l Hv _ IH]; intros x Hx; [exact Hx|].
  cbn [fold_left]. apply IH. unfold accumulate. apply add_not_nan; [exact Hx|].
  apply of_Z_finite_or_zero.
  unfold Int.int_range, Int.INT_MIN, Int.INT_MAX in Hv. lia.
Qed.

Lemma div_core_nonneg m1 e1 m2 e2 :
  0 <= fst (fst (SFdiv_core_binary prec emax (Zpos m1) e1 (Zpos m2) e2)).
Proof.
  unfold SFdiv_core_binary.
  set (s := _ - _ - _).
  set (m' := match s with Z0 => _ | Zpos _ => _ | Zneg _ => _ end).
  assert (Hm : 0 <= m').
  { unfold m'. destruct s; try lia. apply Z.shiftl_nonneg. lia. }
  rewrite DivisionFacts.div_eucl_pair. cbn [fst]. apply Z.div_pos; lia.
Qed.

Lemma div_not_nan (x c : double) :
  is_nan x = false -> finite_or_zero c = true -> is_zero c = false ->
  is_nan (SF64div x c) = false.
Proof.
  intros Hx Hc Hz.
  destruct x as [sx|sx| |sx mx ex], c as [sc|sc| |sc mc ec]; try discriminate; try reflexivity.
  unfold SF64div, SFdiv.
  pose proof (div_core_nonneg mx ex mc ec) as H.
  destruct (SFdiv_core_binary prec emax (Zpos mx) ex (Zpos mc) ec) as [[mz ez] lz].
  cbn [fst] in H. now apply binary_round_aux_not_nan.
Qed.

End NanFacts.

(** X5. For samples of type [int], fewer than [2^53] of them,
    [calculateAverage] never returns NaN. *)
Theorem average_never_nan (n : string) (samples : list Z) :
  Forall Int.int_range samples ->
  size samples < 2 ^ 53 ->
  calculateAverage (add_all (new_Analyzer n) samples) <> Some S754_nan.
Proof.
  intros HF Hs.
  destruct (empty samples) eqn:E.
  - rewrite calculateAverage_guarded by now rewrite data_new_add_all. discriminate.
  - rewrite calculateAverage_nonempty by now rewrite data_new_add_all.
    rewrite data_new_add_all. intros H. injection H as H.
    pose proof (size_nonzero samples E) as Hnz.
    assert (Hn : is_nan
                   (SF64div (fold_left accumulate samples Double.zero)
                            (Double.of_Z (size samples))) = false).
    { apply NanFacts.div_not_nan.
      - now apply NanFacts.loop_not_nan.
      - apply NanFacts.of_Z_finite_or_zero. unfold size in *. lia.
      - now apply DoubleFacts.of_Z_nonzero. }
    rewrite H in Hn. discriminate Hn.
Qed.

Lemma average_never_nan_witness :
  Forall Int.int_range [1; 2] /\ size [1; 2] < 2 ^ 53 /\
  calculateAverage (add_all (new_Analyzer "Sensor-C") [1; 2]) <> Some S754_nan.
Proof.
  assert (HF : Forall Int.int_range [1; 2])
    by (repeat constructor; unfold Int.INT_MIN, Int.INT_MAX; lia).
  assert (HL : size [1; 2] < 2 ^ 53) by (cbn; lia).
  split; [exact HF|]. split; [exact HL|].
  exact (average_never_nan "Sensor-C" [1; 2] HF HL).
Defined.

Section Output.

Local Open Scope string_scope.
Local Open Scope Z_scope.

Lemma calculateAverage_ext (a b : Analyzer) :
  data a = data b -> calculateAverage a = calculateAverage b.
Proof. intros H. unfold calculateAverage. now rewrite H. Qed.

Lemma printReport_ext (a b : Analyzer) (os : ostream) :
  name a = name b -> data a = data b -> printReport a os = printReport b os.
Proof.
  intros Hn Hd. unfold printReport. now rewrite Hn, (calculateAverage_ext a b Hd).
Qed.

Lemma run_reports (cs : list call) (this : Analyzer) (os : ostream) :
  exists rs this',
    run cs {| object := this; cout := os |} =
    Some (rs, {| object := this'; cout := os ++ reports cs this |}).
Proof.
  revert this os. induction cs as [|c cs IH]; intros this os.
  - exists [], this. cbn [run reports]. now rewrite append_nil_r.
  - destruct c as [v| |]; cbn [run exec reports object cout].
    + destruct (IH (addData this v) os) as (rs & this' & H). rewrite H. eauto.
    + destruct (calculateAverage_total this) as [d Hd]. rewrite Hd.
      destruct (IH this os) as (rs & this' & H). rewrite H. eauto.
    + destruct (calculateAverage_total this) as [d Hd]. rewrite Hd.
      rewrite (printReport_text this os d Hd).
      destruct (IH this (os ++ report_text this d)) as (rs & this' & H). rewrite H.
      rewrite append_assoc. eauto.
Qed.

Lemma reports_silent (cs : list call) (this : Analyzer) :
  existsb is_print cs = false -> reports cs this = "".
Proof.
  revert this. induction cs as [|c cs IH]; intros this H; [reflexivity|].
  destruct c; cbn [existsb is_print orb reports] in *; try discriminate; now apply IH.
Qed.

(** *** Line breaks *)

Lemma line_breaks_append (a b : string) :
  line_breaks (a ++ b) = (line_breaks a + line_breaks b)%nat.
Proof.
  induction a as [|c a IH]; [reflexivity|].
  cbn [append line_breaks]. rewrite IH. lia.
Qed.

Lemma line_breaks_substring (s : string) (n m : nat) :
  line_breaks s = 0%nat -> line_breaks (substring n m s) = 0%nat.
Proof.
  revert n m. induction s as [|c s IH]; intros n m H.
  - destruct n, m; reflexivity.
  - cbn [line_breaks] in H.
    destruct n as [|n]; [destruct m as [|m]; [reflexivity|]|]; cbn [substring line_breaks].
    + rewrite IH by lia. lia.
    + apply IH. lia.
Qed.

Lemma line_breaks_strip_zeros (s : string) :
  line_breaks s = 0%nat -> line_breaks (Ostream.strip_zeros s) = 0%nat.
Proof.
  induction s as [|c s IH]; intros H; [reflexivity|].
  cbn [line_breaks] in H. cbn [Ostream.strip_zeros].
  assert (Hs : line_breaks (Ostream.strip_zeros s) = 0%nat) by (apply IH; lia).
  destruct (Ostream.strip_zeros s) as [|c' r'].
  - destruct (Ascii.eqb c "0"); [reflexivity|]. cbn [line_breaks]. lia.
  - cbn [line_breaks] in *. lia.
Qed.

Lemma line_breaks_zeros (n : nat) : line_breaks (Ostream.zeros n) = 0%nat.
Proof. induction n as [|n IH]; [reflexivity|]. cbn [Ostream.zeros line_breaks]. now rewrite IH. Qed.

Lemma digit_char_plain (d : Z) :
  0 <= d < 10 -> Ascii.eqb (Ostream.digit_char d) (ascii_of_nat 10) = false.
Proof.
  intros H.
  assert (E : d = 0 \/ d = 1 \/ d = 2 \/ d = 3 \/ d = 4 \/ d = 5 \/ d = 6 \/ d = 7 \/ d = 8 \/ d = 9) by lia.
  repeat (destruct E as [->|E]; [reflexivity|]). subst. reflexivity.
Qed.

Lemma line_breaks_digits_acc (fuel : nat) (n : Z) (acc : string) :
  line_breaks acc = 0%nat -> line_breaks (Ostream.digits_acc fuel n acc) = 0%nat.
Proof.
  revert n acc. induction fuel as [|fuel IH]; intros n acc H; [exact H|].
  cbn [Ostream.digits_acc].
  assert (H' : line_breaks (String (Ostream.digit_char (n mod 10)) acc) = 0%nat).
  { cbn [line_breaks]. rewrite digit_char_plain by (apply Z.mod_pos_bound; lia). exact H. }
  destruct (n <? 10); [exact H'|now apply IH].
Qed.

Lemma line_breaks_decimal (n : Z) : line_breaks (Ostream.decimal n) = 0%nat.
Proof. unfold Ostream.decimal. now apply line_breaks_digits_acc. Qed.

Lemma line_breaks_with_point (a b : string) :
  line_breaks a = 0%nat -> line_breaks b = 0%nat ->
  line_breaks (Ostream.with_point a b) = 0%nat.
Proof.
  intros Ha Hb. unfold Ostream.with_point.
  pose proof (line_breaks_strip_zeros b Hb) as Hs.
  destruct (Ostream.strip_zeros b) as [|c r]; [exact Ha|].
  rewrite !line_breaks_append, Ha, Hs. reflexivity.
Qed.

Lemma line_breaks_exponent_text (x : Z) : line_breaks (Ostream.exponent_text x) = 0%nat.
Proof.
  unfold Ostream.exponent_text. rewrite !line_breaks_append, line_breaks_decimal.
  destruct (x <? 0), (Z.abs x <? 10); reflexivity.
Qed.

Lemma line_breaks_general6 (num den : Z) : line_breaks (Ostream.general6 num den) = 0%nat.
Proof.
  unfold Ostream.general6. cbv zeta.
  set (x0 := Ostream.exponent10_from 700 (-324) num den).
  set (n0 := Ostream.six_digits x0 num den).
  set (x := if n0 =? 1000000 then x0 + 1 else x0).
  set (n := if n0 =? 1000000 then 100000 else n0).
  pose proof (line_breaks_decimal n) as Hd.
  destruct ((-4 <=? x) && (x <? 6)).
  - destruct (0 <=? x).
    + apply line_breaks_with_point; now apply line_breaks_substring.
    + apply line_breaks_with_point; [reflexivity|].
      now rewrite line_breaks_append, line_breaks_zeros, Hd.
  - rewrite !line_breaks_append, line_breaks_exponent_text.
    rewrite line_breaks_with_point by now apply line_breaks_substring.
    reflexivity.
Qed.

(** The text of a number never contains a line break. *)
Lemma line_breaks_format_double (d : double) :
  line_breaks (Ostream.format_double d) = 0%nat.
Proof.
  destruct d as [s|s| |s m e]; cbn [Ostream.format_double];
    try (now destruct s); try reflexivity.
  rewrite line_breaks_append.
  destruct (0 <=? e); rewrite line_breaks_general6; now destruct s.
Qed.

End Output.

(** C4, as the code has it.  For every Analyzer state and whatever has
    been written before, [printReport] appends to standard output
    "Analyzer: " and the name, a line break, "Average: " and the default
    rendering of the value [calculateAverage] returns in that same state, a
    line break.  The name is written as it is, so the text holds two line
    breaks plus those of the name: exactly two lines when the name has no
    line break.  For name "Sensor-C" and samples 1, 2 the text is exactly
    "Analyzer: Sensor-C", line break, "Average: 1.5", line break. *)
Theorem printReport_lines :
  (forall (this : Analyzer) (os : ostream),
     exists average,
       calculateAverage this = Some average /\
       printReport this os =
       Some (os ++ "Analyzer: " ++ name this ++ Ostream.newline ++
             "Average: " ++ Ostream.format_double average ++ Ostream.newline)%string /\
       line_breaks ("Analyzer: " ++ name this ++ Ostream.newline ++
                    "Average: " ++ Ostream.format_double average ++ Ostream.newline)%string =
       (line_breaks (name this) + 2)%nat) /\
  printReport (add_all (new_Analyzer "Sensor-C") [1; 2]) EmptyString =
  Some ("Analyzer: Sensor-C" ++ Ostream.newline ++
        "Average: 1.5" ++ Ostream.newline)%string.
Proof.
  split.
  - intros this os. destruct (printReport_total this os) as (average & Ha & Hp).
    exists average. split; [exact Ha|]. split; [exact Hp|].
    rewrite !line_breaks_append, line_breaks_format_double. cbn. lia.
  - vm_compute. reflexivity.
Qed.

(** C4 as stated fails: the report of a fresh Analyzer named
    [two_line_name] has three line breaks, three lines and not two. *)
Lemma printReport_three_lines :
  printReport (new_Analyzer two_line_name) EmptyString =
  Some ("Analyzer: A" ++ Ostream.newline ++ "B" ++ Ostream.newline ++
        "Average: 0" ++ Ostream.newline)%string /\
  line_breaks ("Analyzer: A" ++ Ostream.newline ++ "B" ++ Ostream.newline ++
               "Average: 0" ++ Ostream.newline)%string = 3%nat /\
  line_breaks ("Analyzer: A" ++ Ostream.newline ++ "B" ++ Ostream.newline ++
               "Average: 0" ++ Ostream.newline)%string <> 2%nat.
Proof.
  split; [vm_compute; reflexivity|].
  split; [vm_compute; reflexivity|].
  vm_compute. discriminate.
Qed.

(** X6. Queries do not disturb later results: after any sequence of
    calls, [calculateAverage] and [printReport] give what they give on an
    object that received the [addData] calls of the sequence alone. *)
Theorem queries_do_not_disturb (cs : list call) (w : world) :
  exists rs w',
    run cs w = Some (rs, w') /\
    calculateAverage (object w') =
    calculateAverage (add_all (object w) (added_values cs)) /\
    forall os, printReport (object w') os =
               printReport (add_all (object w) (added_values cs)) os.
Proof.
  destruct (run_effect cs w) as (rs & w' & Hr & _ & Hn & Hd).
  exists rs, w'. split; [exact Hr|].
  assert (Hd' : data (object w') = data (add_all (object w) (added_values cs)))
    by now rewrite data_add_all.
  split.
  - now apply calculateAverage_ext.
  - intros os. apply printReport_ext; [|exact Hd']. now rewrite name_add_all.
Qed.

(** X7. Standard output is only added to, and only by [printReport]:
    after any sequence of calls it is the earlier output followed by one
    report per [printReport] call, each of the object as it was at that call
    ([reports]); a sequence without [printReport] leaves it as it was. *)
Theorem output_is_the_reports (cs : list call) (this : Analyzer) (os : ostream) :
  exists rs this',
    run cs {| object := this; cout := os |} =
    Some (rs, {| object := this'; cout := (os ++ reports cs this)%string |}) /\
    (existsb is_print cs = false -> (os ++ reports cs this)%string = os).
Proof.
  destruct (run_reports cs this os) as (rs & this' & H).
  exists rs, this'. split; [exact H|].
  intros Hs. rewrite reports_silent by exact Hs. apply append_nil_r.
Qed.

(** X8. The name is written as it is: a report adds to standard output
    two line breaks plus the line breaks of the name, the text of the
    average having none.  A name without a line break gives exactly two
    lines. *)
Theorem report_line_breaks (this : Analyzer) (os : ostream) :
  exists os',
    printReport this os = Some os' /\
    line_breaks os' = (line_breaks os + line_breaks (name this) + 2)%nat.
Proof.
  destruct (printReport_total this os) as (d & _ & H).
  eexists. split; [exact H|].
  unfold report_text. rewrite !line_breaks_append, line_breaks_format_double.
  cbn. lia.
Qed.
